(** * ClawBridge: the exposure registry of the setup UI and the gateway core

    The first part embeds the operator dashboard's state handling from
    [clawbridge/app/static/app.js]: the exposure map [exposedEntities], the
    single-entity setter with its read-only and sensitive-domain gates, the
    bulk select/deselect with their undo snapshot, and preset loading; then
    the per-level counts, the constraints editor and its save, the entity
    counts of the schedule list, and the two escaping helpers.  Other DOM
    rendering, toasts and the debounced auto-save only display or send the
    state; they are not modelled.

    The gateway core (confirmation queue, parameter clamping, schedules,
    rate limiter, key store) lives in the Python backend, which is not part
    of the sources; the later modules model it from the design document. *)

From Stdlib Require Import String Ascii Bool List ZArith Lia Sorting.Sorted.
From stdpp Require Import base gmap strings list.

Import ListNotations.
Open Scope string_scope.

(* ================================================================= *)
(** ** Strings: the few JS string methods the UI uses *)

(** [entityId.split('.')[0]]: the characters before the first dot. *)
Fixpoint split_dot_head (s : string) : string :=
  match s with
  | EmptyString => EmptyString
  | String c r => if Ascii.eqb c "." then EmptyString else String c (split_dot_head r)
  end.

(** [s.toLowerCase()] on the ASCII range. *)
Definition lower_ascii (c : ascii) : ascii :=
  let n := nat_of_ascii c in
  if (65 <=? n)%nat && (n <=? 90)%nat then ascii_of_nat (n + 32) else c.

Fixpoint toLowerCase (s : string) : string :=
  match s with
  | EmptyString => EmptyString
  | String c r => String (lower_ascii c) (toLowerCase r)
  end.

(** [s.includes(sub)]: [sub] is a prefix of some suffix of [s]. *)
Fixpoint includes (s sub : string) : bool :=
  String.prefix sub s ||
  match s with
  | EmptyString => false
  | String _ r => includes r sub
  end.

(** [s.slice(n)]. *)
Fixpoint slice (n : nat) (s : string) : string :=
  match n, s with
  | O, _ => s
  | S _, EmptyString => EmptyString
  | S k, String _ r => slice k r
  end.

(** [arr.includes(x)] on an array of strings. *)
Definition list_includes (l : list string) (x : string) : bool :=
  existsb (String.eqb x) l.

(** Lookup of a key in a JS object kept as an association list
    (insertion order, which [Object.values] follows). *)
Fixpoint assoc {A} (k : string) (l : list (string * A)) : option A :=
  match l with
  | [] => None
  | (k', v) :: r => if String.eqb k k' then Some v else assoc k r
  end.

(* ================================================================= *)
(** ** The domain tables *)

Definition SENSITIVE_DOMAINS : list string :=
  ["lock"; "cover"; "alarm_control_panel"; "climate"; "valve"].

Definition READ_ONLY_DOMAINS : list string :=
  ["sensor"; "binary_sensor"; "weather"; "sun"; "zone"; "person";
   "device_tracker"; "geo_location"; "air_quality"; "image"].

(* ================================================================= *)
(** ** The UI state *)

(** The values of [exposedEntities]: ["read"|"confirm"|"control"].  The level
    [off] is not a value: it is the argument [null] of [setEntityAccess],
    written [None] below, and is represented by the absence of the key. *)
Inductive access := Read | Confirm | Control.

Global Instance access_eq_dec : EqDecision access.
Proof. solve_decision. Defined.

(** [access === 'control' || access === 'confirm'] *)
Definition is_confirm_or_control (a : option access) : bool :=
  match a with
  | Some Confirm | Some Control => true
  | _ => false
  end.

(** An entity record of [allDomains] (the fields the code reads). *)
Record entity := mkEntity {
  entity_id : string;
  domain : string;
  friendly_name : string;
}.

(** The page state the bulk operations read: the search box, the selected
    sidebar item, the entity list per domain and the groups. *)
Record view := mkView {
  searchInput : string;
  activeDomain : option string;
  allDomains : list (string * list entity);
  entityGroups : list (string * list string);
}.

(** The module-level [let]s the operations mutate.  A staged sensitive
    change is the closure [() => _applyAccess(entityId, access)]; it is kept
    as the two values it captures. *)
Record ui := mkUi {
  exposedEntities : gmap string access;
  undoSnapshot : option (gmap string access);
  pendingSensitiveCallback : option (string * option access);
  sensitiveModalShown : bool;
}.

Definition set_exposed (s : ui) (m : gmap string access) : ui :=
  mkUi m (undoSnapshot s) (pendingSensitiveCallback s) (sensitiveModalShown s).

(* ================================================================= *)
(** ** Helpers: [getAllEntitiesFlat], [getExposedEntities] *)

Definition getAllEntitiesFlat (v : view) : list entity :=
  concat (map snd (allDomains v)).

(** [filter(e => exposedEntities[e.entity_id])]: every stored level is a
    non-empty string, so the test is "the key is present". *)
Definition getExposedEntities (ex : gmap string access) (v : view) : list entity :=
  List.filter (fun e => bool_decide (is_Some (ex !! entity_id e))) (getAllEntitiesFlat v).

(** [countByAccess(level)]: the stored levels equal to [level]. *)
Definition countByAccess (ex : gmap string access) (level : access) : nat :=
  length (List.filter (fun v => bool_decide (v = level)) (map snd (map_to_list ex))).

(** [Object.keys(exposedEntities).length], the total [updateExposedCount]
    shows next to the three per-level counts. *)
Definition exposed_total (ex : gmap string access) : nat := length (map_to_list ex).

(* ================================================================= *)
(** ** [setEntityAccess], [_applyAccess] and the sensitive modal *)

Definition _applyAccess (s : ui) (entityId : string) (a : option access) : ui :=
  match a with
  | None => set_exposed s (delete entityId (exposedEntities s))
  | Some l => set_exposed s (<[entityId := l]> (exposedEntities s))
  end.

Definition setEntityAccess (s : ui) (entityId : string) (a : option access) : ui :=
  let dom := split_dot_head entityId in
  if is_confirm_or_control a && list_includes READ_ONLY_DOMAINS dom then s
  else if is_confirm_or_control a && list_includes SENSITIVE_DOMAINS dom then
    mkUi (exposedEntities s) (undoSnapshot s) (Some (entityId, a)) true
  else _applyAccess s entityId a.

Definition confirmSensitiveModal (s : ui) : ui :=
  let s1 := mkUi (exposedEntities s) (undoSnapshot s) (pendingSensitiveCallback s) false in
  match pendingSensitiveCallback s1 with
  | Some (eid, a) =>
      let s2 := _applyAccess s1 eid a in
      mkUi (exposedEntities s2) (undoSnapshot s2) None (sensitiveModalShown s2)
  | None => s1
  end.

Definition cancelSensitiveModal (s : ui) : ui :=
  mkUi (exposedEntities s) (undoSnapshot s) None false.

(* ================================================================= *)
(** ** Undo, bulk select/deselect and [getVisibleEntities] *)

(** [pushUndo]: [undoSnapshot = { ...exposedEntities }]. *)
Definition pushUndo (s : ui) : ui :=
  mkUi (exposedEntities s) (Some (exposedEntities s))
       (pendingSensitiveCallback s) (sensitiveModalShown s).

(** [undo]: a stored snapshot, even an empty object, is truthy. *)
Definition undo (s : ui) : ui :=
  match undoSnapshot s with
  | None => s
  | Some snap => mkUi snap None (pendingSensitiveCallback s) (sensitiveModalShown s)
  end.

(** A JS string is truthy iff it is not empty. *)
Definition truthy (d : string) : bool := negb (String.eqb d "").

Definition getVisibleEntities (v : view) (ex : gmap string access) : list entity :=
  let searchTerm := toLowerCase (searchInput v) in
  if truthy searchTerm then
    List.filter (fun e => includes (toLowerCase (friendly_name e)) searchTerm
                     || includes (toLowerCase (entity_id e)) searchTerm)
           (getAllEntitiesFlat v)
  else match activeDomain v with
  | Some d =>
      if String.eqb d "__exposed__" then getExposedEntities ex v
      else if String.eqb d "__all__" then getAllEntitiesFlat v
      else if truthy d && String.prefix "group:" d then
        let ids := match assoc (slice 6 d) (entityGroups v) with
                   | Some g => g | None => [] end in
        List.filter (fun e => list_includes ids (entity_id e)) (getAllEntitiesFlat v)
      else if truthy d then
        match assoc d (allDomains v) with Some l => l | None => [] end
      else []
  | None => []
  end.

(** [entities.forEach(e => { exposedEntities[e.entity_id] = access; })] *)
Definition set_all (es : list entity) (a : access) (m : gmap string access)
  : gmap string access :=
  fold_left (fun m e => <[entity_id e := a]> m) es m.

(** [entities.forEach(e => { delete exposedEntities[e.entity_id]; })] *)
Definition delete_all (es : list entity) (m : gmap string access) : gmap string access :=
  fold_left (fun m e => delete (entity_id e) m) es m.

Definition selectAllVisible (s : ui) (v : view) (a : access) : ui :=
  let entities := getVisibleEntities v (exposedEntities s) in
  match entities with
  | [] => s
  | _ =>
      let s1 := pushUndo s in
      set_exposed s1 (set_all entities a (exposedEntities s1))
  end.

(** [activeDomain === '__exposed__' && !searchTerm]: the unfiltered
    "Exposed" view, where removing everything asks [confirm(...)] first. *)
Definition deselect_asks (v : view) : bool :=
  let searchTerm := toLowerCase (searchInput v) in
  match activeDomain v with
  | Some d => String.eqb d "__exposed__" && negb (truthy searchTerm)
  | None => false
  end.

(** [confirmed] is the operator's answer to that dialog. *)
Definition deselectAllVisible (s : ui) (v : view) (confirmed : bool) : ui :=
  let entities := getVisibleEntities v (exposedEntities s) in
  match entities with
  | [] => s
  | _ =>
      if deselect_asks v && negb confirmed then s
      else
        let s1 := pushUndo s in
        set_exposed s1 (delete_all entities (exposedEntities s1))
  end.

(* ================================================================= *)
(** ** [applyPreset] *)

(** The [entities] field of a stored preset: an object of levels, the
    legacy array of entity ids, or another (truthy) JSON scalar.  A missing
    or falsy field is replaced by [{}] ([data.entities || {}]). *)
Inductive preset_entities :=
  | PObject (m : gmap string access)
  | PArray (ids : list string)
  | PScalar.

Definition applyPreset (s : ui) (entities : option preset_entities) : ui :=
  match entities with
  | None => set_exposed s ∅
  | Some (PObject m) => set_exposed s m
  | Some (PArray ids) =>
      set_exposed s (fold_left (fun m eid => <[eid := Read]> m) ids ∅)
  | Some PScalar => s
  end.

(* ================================================================= *)
(** ** The constraints editor: [showConstraintsModal] and
    [saveConstraintsFromModal] *)

(** The candidate parameters by domain. *)
Definition constraint_candidates (domain : string) : list string :=
  ((if list_includes ["light"] domain then ["brightness"; "color_temp"] else []) ++
   (if list_includes ["climate"] domain then
      ["temperature"; "target_temp_high"; "target_temp_low"; "humidity"] else []) ++
   (if list_includes ["fan"] domain then ["percentage"] else []) ++
   (if list_includes ["cover"] domain then ["position"; "tilt_position"] else []) ++
   (if list_includes ["number"; "input_number"] domain then ["value"] else []))%list.

(** The rows of the editor: the candidates found among the entity's
    [attribute_keys], ["value"] when there is neither such a candidate nor
    any candidate at all, then each key of [existing] not yet listed. *)
Definition constraint_params (entityId : string) (attrKeys existing : list string)
  : list string :=
  let candidates := constraint_candidates (split_dot_head entityId) in
  let params := List.filter (fun p => list_includes attrKeys p) candidates in
  let params := if (length params =? 0)%nat && (length candidates =? 0)%nat
                then ["value"] else params in
  fold_left (fun ps p => if list_includes ps p then ps else (ps ++ [p])%list)
            existing params.

(** The [data-type] of an input of the editor. *)
Inductive bound := Min | Max.

Section SaveConstraints.

(** The numbers [parseFloat] returns (NaN included) are left abstract. *)
Variable number : Type.
Variable parseFloat : string -> number.

(** The object [constraints[param]]: its [min] and [max], absent when not set. *)
Record constr := mkConstr {
  cmin : option number;
  cmax : option number;
}.

Definition set_bound (ty : bound) (x : number) (c : constr) : constr :=
  match ty with
  | Min => mkConstr (Some x) (cmax c)
  | Max => mkConstr (cmin c) (Some x)
  end.

(** One [.constraint-input]: its [data-param], its [data-type] and its
    trimmed value; [constraints[param]] is created even when the value is
    empty, and only a non-empty value is parsed and stored. *)
Definition record_input (cs : gmap string constr) (inp : string * bound * string)
  : gmap string constr :=
  let '(param, ty, val) := inp in
  let c := match cs !! param with Some c => c | None => mkConstr None None end in
  <[param := if String.eqb val "" then c else set_bound ty (parseFloat val) c]> cs.

Definition collect_constraints (inputs : list (string * bound * string))
  : gmap string constr :=
  fold_left record_input inputs ∅.

(** [c.min != null || c.max != null] *)
Definition has_bound (c : constr) : bool :=
  match cmin c, cmax c with
  | None, None => false
  | _, _ => true
  end.

(** The [clean] object: the parameters with a bound. *)
Definition clean_constraints (cs : gmap string constr) : gmap string constr :=
  filter (fun pc => has_bound pc.2 = true) cs.

(** The update of [entityConstraints] once [/api/constraints] has accepted
    the post (on a failed post nothing changes). *)
Definition saveConstraintsFromModal
    (entityConstraints : gmap string (gmap string constr))
    (constraintsEntityId : string) (inputs : list (string * bound * string))
  : gmap string (gmap string constr) :=
  let clean := clean_constraints (collect_constraints inputs) in
  if (0 <? size clean)%nat then <[constraintsEntityId := clean]> entityConstraints
  else delete constraintsEntityId entityConstraints.

End SaveConstraints.

(* ================================================================= *)
(** ** The schedule list: [loadSchedules] *)

(** [Object.values(entitySchedules).filter(sid => sid === id).length], the
    count of entities shown for schedule [id]. *)
Definition assigned (entitySchedules : gmap string string) (id : string) : nat :=
  length (List.filter (fun sid => String.eqb sid id) (map snd (map_to_list entitySchedules))).

(** The counts of all rows of [Object.entries(allSchedules)], in order. *)
Definition schedule_counts {A} (allSchedules : gmap string A)
    (entitySchedules : gmap string string) : list nat :=
  map (fun ids => assigned entitySchedules ids.1) (map_to_list allSchedules).

(* ================================================================= *)
(** ** The confirmation queue *)

Module ConfirmationQueue.

(** Modelled from the spec: the backend's confirmation queue (section 4.6 of
    the design), which is not among the sources; the dashboard only posts
    [/api/actions/{id}/approve] and [/deny].  States [pending -> approved |
    denied | expired]; approve and deny first run the lazy expiry sweep,
    act on a [pending] action and answer [Conflict] on a resolved one;
    approving forwards the stored call upstream, recorded in [upstream]. *)
Inductive status := Pending | Approved | Denied | Expired.

Record call := mkCall {
  call_domain : string;
  call_service : string;
  call_entity : string;
  call_params : list (string * Z);
}.

Record action := mkAction {
  act_call : call;
  created_at : Z;
  expires_at : Z;
  act_status : status;
}.

Record queue := mkQueue {
  actions : gmap string action;
  upstream : list call;   (* service calls forwarded, most recent first *)
}.

Inductive outcome := Ok | Conflict | NotFound.

Definition with_status (a : action) (st : status) : action :=
  mkAction (act_call a) (created_at a) (expires_at a) st.

Definition is_pending (a : action) : bool :=
  match act_status a with Pending => true | _ => false end.

(** The sweep: a [pending] action whose [expires_at] has passed expires. *)
Definition expire_one (now : Z) (a : action) : action :=
  if is_pending a && (expires_at a <=? now)%Z then with_status a Expired else a.

Definition sweep (now : Z) (q : queue) : queue :=
  mkQueue (expire_one now <$> actions q) (upstream q).

Definition approve (now : Z) (id : string) (q : queue) : outcome * queue :=
  let q1 := sweep now q in
  match actions q1 !! id with
  | None => (NotFound, q1)
  | Some a =>
      if is_pending a then
        (Ok, mkQueue (<[id := with_status a Approved]> (actions q1)) (act_call a :: upstream q1))
      else (Conflict, q1)
  end.

Definition deny (now : Z) (id : string) (q : queue) : outcome * queue :=
  let q1 := sweep now q in
  match actions q1 !! id with
  | None => (NotFound, q1)
  | Some a =>
      if is_pending a then (Ok, mkQueue (<[id := with_status a Denied]> (actions q1)) (upstream q1))
      else (Conflict, q1)
  end.

(** Every queue operation the operator or the background tick performs. *)
Inductive op := OpApprove (now : Z) (id : string) | OpDeny (now : Z) (id : string) | OpSweep (now : Z).

Definition run_op (o : op) (q : queue) : queue :=
  match o with
  | OpApprove now id => snd (approve now id q)
  | OpDeny now id => snd (deny now id q)
  | OpSweep now => sweep now q
  end.

End ConfirmationQueue.

(* ================================================================= *)
(** ** Parameter clamping *)

Module Clamp.

(** Modelled from the spec: the backend's parameter clamping (step 7 of
    the service pipeline, section 4.5), which is not among the sources.
    Each parameter present in both the request and the entity's
    constraints is clamped to [[min, max]], and the result records whether
    any value moved.  Numbers are taken as integers. *)
Definition clamp (v lo hi : Z) : Z :=
  if (v <? lo)%Z then lo else if (hi <? v)%Z then hi else v.

Definition clamp_params (constraints : gmap string (Z * Z)) (params : list (string * Z))
  : list (string * Z) * bool :=
  fold_right
    (fun '(p, v) acc =>
       match constraints !! p with
       | Some (lo, hi) =>
           let v' := clamp v lo hi in
           ((p, v') :: fst acc, negb (Z.eqb v' v) || snd acc)
       | None => ((p, v) :: fst acc, snd acc)
       end)
    ([], false) params.

End Clamp.

(* ================================================================= *)
(** ** Schedules *)

Module Schedule.

(** Modelled from the spec: the backend's schedule evaluator
    [isAllowedNow] (section 4.2), which is not among the sources.  A
    schedule holds ["HH:MM"] start and end times (as the dashboard's time
    inputs send them) and weekdays numbered 0 = Monday .. 6 = Sunday (the
    dashboard's [dayNames]).  The current time-of-day must lie in
    [[start, end)]; an end earlier than the start is a window that crosses
    midnight.  No schedule allows always; an unparsable time allows
    nothing. *)
Record schedule := mkSchedule {
  sched_name : string;
  sched_start : string;
  sched_end : string;
  sched_days : list nat;
}.

Definition digit (c : ascii) : option Z :=
  let n := nat_of_ascii c in
  if (48 <=? n)%nat && (n <=? 57)%nat then Some (Z.of_nat (n - 48)) else None.

(** ["HH:MM"] to minutes after midnight. *)
Definition parse_hhmm (s : string) : option Z :=
  match s with
  | String h1 (String h2 (String ":" (String m1 (String m2 EmptyString)))) =>
      match digit h1, digit h2, digit m1, digit m2 with
      | Some a, Some b, Some c, Some d =>
          let hh := (10 * a + b)%Z in let mm := (10 * c + d)%Z in
          if (hh <? 24)%Z && (mm <? 60)%Z then Some (60 * hh + mm)%Z else None
      | _, _, _, _ => None
      end
  | _ => None
  end.

Definition in_window (start end_ t : Z) : bool :=
  if (start <=? end_)%Z then (start <=? t)%Z && (t <? end_)%Z
  else (start <=? t)%Z || (t <? end_)%Z.

Definition isAllowedNow (sched : option schedule) (weekday : nat) (time_of_day : Z) : bool :=
  match sched with
  | None => true
  | Some s =>
      existsb (Nat.eqb weekday) (sched_days s) &&
      match parse_hhmm (sched_start s), parse_hhmm (sched_end s) with
      | Some st, Some en => in_window st en time_of_day
      | _, _ => false
      end
  end.

(** Every weekday. *)
Definition every_day : list nat := [0; 1; 2; 3; 4; 5; 6]%nat.

End Schedule.

(* ================================================================= *)
(** ** Rate limiter *)

Module RateLimiter.

(** Modelled from the spec: the backend's rate limiter (section 4.3), which
    is not among the sources.  Sliding window per minute: each identity
    keeps the times (in seconds) of its requests, and requests older than
    60 s are no longer counted; a request is allowed iff fewer than
    [limit] counted requests remain.  Every request is recorded, a rejected
    one ([RateLimited]) included: the spec counts requests, not allowed
    requests, and rejects the [(N+1)]-th request of any rolling window,
    which a log of allowed requests alone would not do (with one request a
    minute at 0 s, 30 s and 61 s it would allow the one at 61 s, the second
    of the window [[30, 90]]).  The log is the limiter's own state; no
    registry or queue state changes. *)
Definition WINDOW : Z := 60.

Definition prune (now : Z) (log : list Z) : list Z :=
  List.filter (fun t => (now - t <=? WINDOW)%Z) log.

Definition allow_log (limit : nat) (now : Z) (log : list Z) : bool * list Z :=
  let log' := prune now log in
  ((length log' <? limit)%nat, now :: log').

(** [allow(identity)]: buckets are keyed by identity (API key id or IP). *)
Definition allow (limit : nat) (identity : string) (now : Z) (buckets : gmap string (list Z))
  : bool * gmap string (list Z) :=
  let (ok, log) := allow_log limit now (default [] (buckets !! identity)) in
  (ok, <[identity := log]> buckets).

(** One identity's requests, in arrival order, and the decisions. *)
Fixpoint run (limit : nat) (log : list Z) (reqs : list Z) : list (Z * bool) :=
  match reqs with
  | [] => []
  | n :: r =>
      let (ok, log') := allow_log limit n log in
      (n, ok) :: run limit log' r
  end.

(** [a <= t <= a + 60]: [t] lies in the window starting at [a]. *)
Definition in_win (a t : Z) : bool := (a <=? t)%Z && (t <=? a + WINDOW)%Z.

Definition count_win (a : Z) (hist : list Z) : nat :=
  length (List.filter (in_win a) hist).

(** The decisions [out] (request time, allowed) of some limiter, read
    against the two halves of the stated semantics: the first [N]
    requests of every rolling window are allowed, and the ones after the
    [N]-th in a window are rejected. *)
Definition first_N_allowed (limit : nat) (out : list (Z * bool)) : Prop :=
  forall a, Forall (fun p => snd p = true)
                   (firstn limit (List.filter (fun p => in_win a (fst p)) out)).

Definition beyond_N_rejected (limit : nat) (out : list (Z * bool)) : Prop :=
  forall a, Forall (fun p => snd p = false)
                   (skipn limit (List.filter (fun p => in_win a (fst p)) out)).

End RateLimiter.

(* ================================================================= *)
(** ** API keys: the key store and the dashboard's key list *)

Module ApiKeys.

(** The double quote and a line break, spelled by their codes. *)
Definition dq : string := String (ascii_of_nat 34) EmptyString.
Definition nl : string := String (ascii_of_nat 10) EmptyString.

(** [escapeHtml] (text assigned to [textContent], read back from
    [innerHTML]): [&], [<] and [>] become entities. *)
Fixpoint escapeHtml (s : string) : string :=
  match s with
  | EmptyString => EmptyString
  | String c r =>
      (if Ascii.eqb c "&" then "&amp;"
       else if Ascii.eqb c "<" then "&lt;"
       else if Ascii.eqb c ">" then "&gt;"
       else String c EmptyString) ++ escapeHtml r
  end.

(** [escapeAttr]: a single quote gets a backslash before it and a double
    quote becomes [&quot;]. *)
Fixpoint escapeAttr (s : string) : string :=
  match s with
  | EmptyString => EmptyString
  | String c r =>
      (if Ascii.eqb c "'" then String "\" (String "'" EmptyString)
       else if Ascii.eqb c (ascii_of_nat 34) then "&quot;"
       else String c EmptyString) ++ escapeAttr r
  end.

(** Decimal digits of a count. *)
Fixpoint digits_fuel (fuel n : nat) (acc : string) : string :=
  match fuel with
  | O => acc
  | S f =>
      let d := String (ascii_of_nat (48 + n mod 10)) EmptyString in
      if (n <? 10)%nat then d ++ acc else digits_fuel f (n / 10) (d ++ acc)
  end.

Definition nat_to_string (n : nat) : string := digits_fuel (S n) n EmptyString.

(** An entry of the [/api/keys] response, with the fields [loadApiKeys]
    reads. *)
Record key_info := mkKeyInfo {
  ki_key_id : string;
  ki_name : string;
  ki_key_preview : string;
  ki_entity_count : nat;
  ki_rate_limit : option nat;
}.

(** [${k.rate_limit || 'global'}]: a missing limit or [0] shows "global". *)
Definition rate_limit_text (r : option nat) : string :=
  match r with
  | Some n => if (n =? 0)%nat then "global" else nat_to_string n
  | None => "global"
  end.

Definition attr (name value : string) : string := name ++ "=" ++ dq ++ value ++ dq.

(** One [key-item] of the list (the template's indentation dropped). *)
Definition renderKeyItem (k : key_info) : string :=
  "<div " ++ attr "class" "key-item" ++ ">" ++
  "<div " ++ attr "class" "key-item-info" ++ ">" ++
  "<span " ++ attr "class" "key-item-name" ++ ">" ++ escapeHtml (ki_name k) ++ "</span>" ++
  "<span " ++ attr "class" "key-item-meta" ++ ">" ++ escapeHtml (ki_key_preview k) ++
    " | " ++ nat_to_string (ki_entity_count k) ++ " entities | " ++
    rate_limit_text (ki_rate_limit k) ++ " rpm</span>" ++
  "</div>" ++
  "<button " ++ attr "class" "btn btn-danger btn-xs" ++ " " ++
    attr "onclick" ("deleteApiKey('" ++ escapeAttr (ki_key_id k) ++ "')") ++
    ">delete</button>" ++
  "</div>".

(** [loadApiKeys]: the [innerHTML] it gives to [api-keys-list]. *)
Definition loadApiKeys (keys : list key_info) : string :=
  match keys with
  | [] => "<div " ++ attr "class" "empty-state-sm" ++
          ">No API keys configured. All access is open.</div>"
  | _ => String.concat "" (map renderKeyItem keys)
  end.

(** [createApiKey]: the text shown in [key-result] from the response's
    [key] field. *)
Definition createApiKey_text (key : string) : string :=
  "Key created! Copy this (shown once):" ++ nl ++ key.

(** Modelled from the spec: the backend's API key store (section 4.4),
    which is not among the sources.  [issue] returns the raw secret once
    and keeps only a salted hash and a truncated preview (the first eight
    characters followed by "..."); [revoke] deletes the key; the listing
    returns, per key, its id, name, preview, number of scoped entities and
    own rate limit.  The hash function is a parameter. *)
Record api_key := mkApiKey {
  key_id : string;
  key_name : string;
  key_salt : string;
  key_hash : string;
  key_preview : string;
  entity_scope : option (list string);
  rate_limit_per_minute : option nat;
}.

Definition preview (secret : string) : string := substring 0 8 secret ++ "...".

Section Store.
Variable hash : string -> string -> string.

Definition issue (store : gmap string api_key) (id name salt secret : string)
    (scope : option (list string)) (rl : option nat)
  : gmap string api_key * (string * string) :=
  (<[id := mkApiKey id name salt (hash salt secret) (preview secret) scope rl]> store,
   (id, secret)).

Definition revoke (id : string) (store : gmap string api_key) : gmap string api_key :=
  delete id store.

Inductive key_op :=
  | Issue (id name salt secret : string) (scope : option (list string)) (rl : option nat)
  | Revoke (id : string).

Fixpoint run_key_ops (ops : list key_op) (store : gmap string api_key) : gmap string api_key :=
  match ops with
  | [] => store
  | Issue id name salt secret scope rl :: r => run_key_ops r (fst (issue store id name salt secret scope rl))
  | Revoke id :: r => run_key_ops r (revoke id store)
  end.

End Store.

Definition info (k : api_key) : key_info :=
  mkKeyInfo (key_id k) (key_name k) (key_preview k)
    (match entity_scope k with Some l => length l | None => 0 end)
    (rate_limit_per_minute k).

(** [GET /api/keys]. *)
Definition list_keys (store : gmap string api_key) : list key_info :=
  (fun p => info (snd p)) <$> map_to_list store.

(** A key record with its hash blanked: what the listing can see. *)
Definition erase (k : api_key) : api_key :=
  mkApiKey (key_id k) (key_name k) (key_salt k) "" (key_preview k)
           (entity_scope k) (rate_limit_per_minute k).

(** A store holding one key issued with [secret]. *)
Definition store_with (hash : string -> string -> string) (secret : string) :=
  fst (issue hash ∅ "k1" "agent" "salt" secret None None).

End ApiKeys.

(* ================================================================= *)
(* ================================================================= *)
(** * Proofs *)

(* ================================================================= *)
(** ** Lemmas about the UI operations *)

Lemma sensitive_not_read_only (d : string) :
  list_includes SENSITIVE_DOMAINS d = true -> list_includes READ_ONLY_DOMAINS d = false.
Proof.
  unfold list_includes. intros H. apply existsb_exists in H as [x [Hin Hx]].
  apply String.eqb_eq in Hx; subst x.
  simpl in Hin; repeat destruct Hin as [<- | Hin]; try reflexivity; contradiction.
Qed.

Lemma lookup_fold_insert_read (ids : list string) (m : gmap string access) (k : string) :
  fold_left (fun m eid => <[eid := Read]> m) ids m !! k =
  if bool_decide (k ∈ ids) then Some Read else m !! k.
Proof.
  revert m. induction ids as [|i ids IH]; intros m; cbn [fold_left].
  - rewrite bool_decide_false; [done | set_solver].
  - rewrite IH. destruct (decide (k = i)) as [->|Hne].
    + rewrite lookup_insert_eq.
      destruct (bool_decide (i ∈ ids)); rewrite ?bool_decide_true; set_solver.
    + rewrite lookup_insert_ne by congruence.
      destruct (bool_decide (k ∈ ids)) eqn:E.
      * apply bool_decide_eq_true in E. rewrite bool_decide_true by set_solver. done.
      * apply bool_decide_eq_false in E. rewrite bool_decide_false by set_solver. done.
Qed.

Lemma getExposedEntities_present (ex : gmap string access) (v : view) (e : entity) :
  In e (getExposedEntities ex v) -> is_Some (ex !! entity_id e).
Proof.
  unfold getExposedEntities. rewrite filter_In. intros [_ H].
  by apply bool_decide_eq_true in H.
Qed.

(* ================================================================= *)
(** ** Claims about the exposure map *)

(** Small evaluations of the model. *)
Example split_dot_head_ex : split_dot_head "binary_sensor.door" = "binary_sensor".
Proof. reflexivity. Qed.

Example search_ex :
  getVisibleEntities (mkView "OFF" None [("light", [mkEntity "light.office" "light" "Office"])] [])
                     ∅ = [mkEntity "light.office" "light" "Office"].
Proof. reflexivity. Qed.

(** C1 (code defect).  The single-entity setter refuses [confirm]/[control]
    on a read-only domain, but the bulk setter and preset loading install
    such a level with no check: on the "sensor" view, select-all with
    [control] grants [control] to [sensor.temp], and so does loading the
    preset [{"sensor.temp": "control"}]. *)
Example read_only_bypass_bulk_and_preset :
  let s0 := mkUi ∅ None None false in
  let v := mkView "" (Some "sensor")
             [("sensor", [mkEntity "sensor.temp" "sensor" "Temperature"])] [] in
  setEntityAccess s0 "sensor.temp" (Some Control) = s0 /\
  exposedEntities (selectAllVisible s0 v Control) !! "sensor.temp" = Some Control /\
  exposedEntities (applyPreset s0 (Some (PObject {["sensor.temp" := Control]})))
    !! "sensor.temp" = Some Control.
Proof. vm_compute. repeat split; reflexivity. Qed.

(** C2.  Setting an entity to [off] ([null]) deletes its key; an entity
    configured and then set to [off] leaves the map exactly as if it had
    never been configured; and the "Exposed" view only lists entities with a
    key in the map, so an [off]/absent entity never appears in it. *)
Theorem setEntityAccess_off_is_absence (s : ui) (id : string) :
  exposedEntities (setEntityAccess s id None) = delete id (exposedEntities s) /\
  exposedEntities (setEntityAccess s id None) !! id = None /\
  (forall (m : gmap string access) (a : access), m !! id = None ->
     exposedEntities (setEntityAccess (set_exposed s (<[id := a]> m)) id None) = m) /\
  (forall (v : view) (e : entity), exposedEntities s !! entity_id e = None ->
     ~ In e (getExposedEntities (exposedEntities s) v)).
Proof.
  split; [reflexivity |]. split; [apply lookup_delete_eq |]. split.
  - intros m a Hm. cbn. rewrite delete_insert_eq. by apply delete_id.
  - intros v e He Hin. apply getExposedEntities_present in Hin.
    rewrite He in Hin. by destruct Hin.
Qed.

Lemma setEntityAccess_off_is_absence_witness :
  exposedEntities (setEntityAccess (mkUi ∅ None None false) "light.a" None) = ∅ /\
  exposedEntities (setEntityAccess (set_exposed (mkUi ∅ None None false)
                     (<["light.a" := Control]> ∅)) "light.a" None) = ∅ /\
  ~ In (mkEntity "light.a" "light" "A")
       (getExposedEntities ∅ (mkView "" None [("light", [mkEntity "light.a" "light" "A"])] [])).
Proof.
  destruct (setEntityAccess_off_is_absence (mkUi ∅ None None false) "light.a")
    as [H1 [_ [H3 H4]]].
  split; [rewrite H1; reflexivity |]. split.
  - apply H3. reflexivity.
  - apply H4. reflexivity.
Defined.

(** C8.  Asking for [confirm] or [control] on a sensitive domain only stages
    the change: the map is unchanged and the captured change is pending.
    Confirming the modal applies exactly that change; cancelling drops it
    and leaves the map as it was. *)
Theorem setEntityAccess_sensitive_staged (s : ui) (id : string) (a : access) :
  list_includes SENSITIVE_DOMAINS (split_dot_head id) = true ->
  a = Confirm \/ a = Control ->
  let s1 := setEntityAccess s id (Some a) in
  exposedEntities s1 = exposedEntities s /\
  pendingSensitiveCallback s1 = Some (id, Some a) /\
  exposedEntities (confirmSensitiveModal s1) = <[id := a]> (exposedEntities s) /\
  pendingSensitiveCallback (confirmSensitiveModal s1) = None /\
  exposedEntities (cancelSensitiveModal s1) = exposedEntities s /\
  pendingSensitiveCallback (cancelSensitiveModal s1) = None.
Proof.
  intros Hs Ha s1.
  assert (Hc : is_confirm_or_control (Some a) = true) by (destruct Ha; subst; reflexivity).
  assert (Hs1 : s1 = mkUi (exposedEntities s) (undoSnapshot s) (Some (id, Some a)) true).
  { unfold s1, setEntityAccess. rewrite Hc, Hs, (sensitive_not_read_only _ Hs). reflexivity. }
  rewrite Hs1. repeat split; reflexivity.
Qed.

Lemma setEntityAccess_sensitive_staged_witness :
  list_includes SENSITIVE_DOMAINS (split_dot_head "lock.front_door") = true /\
  exposedEntities (cancelSensitiveModal
    (setEntityAccess (mkUi {["light.a" := Read]} None None false) "lock.front_door" (Some Control)))
  = {["light.a" := Read]}.
Proof.
  split; [reflexivity |].
  destruct (setEntityAccess_sensitive_staged (mkUi {["light.a" := Read]} None None false)
              "lock.front_door" Control) as [_ [_ [_ [_ [H _]]]]];
    [reflexivity | right; reflexivity | exact H].
Defined.

(** C9, as stated, fails: with nothing visible the bulk operation returns
    before [pushUndo], so an older snapshot still pending is what [undo]
    restores.  Here the map [{light.a: read}] has a pending snapshot [{}]
    from an earlier bulk edit; select-all on an empty view changes nothing,
    and the following undo empties the map. *)
Lemma bulk_undo_empty_view_restores_older_snapshot :
  let s := mkUi {["light.a" := Read]} (Some ∅) None false in
  let v := mkView "" None [("light", [mkEntity "light.a" "light" "A"])] [] in
  exposedEntities (undo (selectAllVisible s v Control)) <> exposedEntities s.
Proof.
  intros s v H. apply (f_equal (lookup "light.a")) in H.
  vm_compute in H. discriminate.
Qed.

(** C9 (amended).  When some entity is visible, select-all followed by undo
    restores the map exactly; so does deselect-all followed by undo when it
    goes ahead (the operator accepts the prompt shown on the unfiltered
    "Exposed" view, or no prompt is shown). *)
Theorem bulk_undo_roundtrip (s : ui) (v : view) (a : access) (confirmed : bool) :
  getVisibleEntities v (exposedEntities s) <> [] ->
  exposedEntities (undo (selectAllVisible s v a)) = exposedEntities s /\
  ((deselect_asks v = true -> confirmed = true) ->
   exposedEntities (undo (deselectAllVisible s v confirmed)) = exposedEntities s).
Proof.
  intros Hne. unfold selectAllVisible, deselectAllVisible.
  destruct (getVisibleEntities v (exposedEntities s)) as [|e es]; [congruence |].
  split; [reflexivity |].
  intros Hc. destruct (deselect_asks v); [rewrite Hc by reflexivity |]; reflexivity.
Qed.

Lemma bulk_undo_roundtrip_witness :
  let s := mkUi {["light.a" := Read]} (Some ∅) None false in
  let v := mkView "" (Some "__all__") [("light", [mkEntity "light.b" "light" "B"])] [] in
  getVisibleEntities v (exposedEntities s) <> [] /\
  exposedEntities (undo (selectAllVisible s v Control)) = exposedEntities s.
Proof.
  intros s v.
  assert (Hne : getVisibleEntities v (exposedEntities s) <> []) by (vm_compute; congruence).
  split; [exact Hne |].
  exact (proj1 (bulk_undo_roundtrip s v Control true Hne)).
Defined.

(** C10.  Loading a preset stored in the legacy array format replaces the
    map by one whose keys are exactly the listed ids, each at [read]; no
    entity gets [confirm] or [control]. *)
Theorem applyPreset_legacy_array (s : ui) (ids : list string) (k : string) :
  exposedEntities (applyPreset s (Some (PArray ids))) !! k =
    (if bool_decide (k ∈ ids) then Some Read else None) /\
  exposedEntities (applyPreset s (Some (PArray ids))) !! k <> Some Confirm /\
  exposedEntities (applyPreset s (Some (PArray ids))) !! k <> Some Control.
Proof.
  cbn [applyPreset exposedEntities set_exposed].
  rewrite lookup_fold_insert_read, lookup_empty.
  destruct (bool_decide (k ∈ ids)); repeat split; discriminate.
Qed.

Module ConfirmationQueueFacts.
Import ConfirmationQueue.

Lemma sweep_terminal (now : Z) (q : queue) (k : string) (a : action) :
  actions q !! k = Some a -> is_pending a = false -> actions (sweep now q) !! k = Some a.
Proof.
  intros Hk Hp. cbn. rewrite lookup_fmap, Hk. cbn. unfold expire_one. by rewrite Hp.
Qed.

Lemma run_op_terminal (o : op) (q : queue) (k : string) (a : action) :
  actions q !! k = Some a -> is_pending a = false -> actions (run_op o q) !! k = Some a.
Proof.
  intros Hk Hp.
  destruct o as [now id | now id | now]; cbn [run_op];
    pose proof (sweep_terminal now q k a Hk Hp) as Hs; [unfold approve | unfold deny | exact Hs];
    destruct (actions (sweep now q) !! id) as [b|] eqn:Hb; cbn; try exact Hs;
    destruct (is_pending b) eqn:Hpb; cbn; try exact Hs;
    (rewrite lookup_insert_ne; [exact Hs | intros ->; congruence]).
Qed.

Lemma is_pending_Pending (a : action) : is_pending a = true <-> act_status a = Pending.
Proof. unfold is_pending. destruct (act_status a); split; congruence. Qed.

(** C3.  No operation on the queue (approve, deny, or the expiry sweep, at
    any time) changes an action that is already approved, denied or
    expired.  Approving a pending, unexpired action answers [Ok], marks it
    approved and forwards its call once; a later approve or deny of the
    same action answers [Conflict] and forwards nothing. *)
Theorem pending_action_monotonic :
  (forall (o : op) (q : queue) (k : string) (b : action),
     actions q !! k = Some b -> act_status b <> Pending ->
     actions (run_op o q) !! k = Some b) /\
  (forall (q : queue) (id : string) (a : action) (now now' : Z),
     actions q !! id = Some a -> act_status a = Pending -> (now < expires_at a)%Z ->
     let q1 := snd (approve now id q) in
     fst (approve now id q) = Ok /\
     actions q1 !! id = Some (with_status a Approved) /\
     upstream q1 = act_call a :: upstream q /\
     fst (approve now' id q1) = Conflict /\
     upstream (snd (approve now' id q1)) = upstream q1 /\
     fst (deny now' id q1) = Conflict /\
     upstream (snd (deny now' id q1)) = upstream q1).
Proof.
  split.
  - intros o q k b Hk Hs. apply run_op_terminal; [exact Hk |].
    destruct (is_pending b) eqn:E; [apply is_pending_Pending in E; contradiction | reflexivity].
  - intros q id a now now' Hid Hst Hexp q1.
    assert (Hp : is_pending a = true) by (by apply is_pending_Pending).
    assert (Hs : actions (sweep now q) !! id = Some a).
    { cbn. rewrite lookup_fmap, Hid. cbn. unfold expire_one. rewrite Hp.
      replace (expires_at a <=? now)%Z with false by lia. reflexivity. }
    assert (Hq1 : approve now id q =
      (Ok, mkQueue (<[id := with_status a Approved]> (actions (sweep now q)))
                   (act_call a :: upstream q))).
    { unfold approve. rewrite Hs, Hp. reflexivity. }
    assert (Hl1 : actions q1 !! id = Some (with_status a Approved)).
    { unfold q1. rewrite Hq1. cbn. apply lookup_insert_eq. }
    assert (Hs1 : actions (sweep now' q1) !! id = Some (with_status a Approved)).
    { apply sweep_terminal; [exact Hl1 | reflexivity]. }
    split; [rewrite Hq1; reflexivity |].
    split; [exact Hl1 |].
    split; [unfold q1; rewrite Hq1; reflexivity |].
    unfold approve, deny; rewrite Hs1; cbn. repeat split.
Qed.

Lemma pending_action_monotonic_witness :
  let a := mkAction (mkCall "lock" "unlock" "lock.front_door" []) 0 300 Pending in
  let q := mkQueue {["act1" := a]} [] in
  fst (approve 10%Z "act1" q) = Ok /\
  fst (approve 20%Z "act1" (snd (approve 10%Z "act1" q))) = Conflict /\
  upstream (snd (deny 20%Z "act1" (snd (approve 10%Z "act1" q)))) = [act_call a].
Proof.
  intros a q.
  destruct (proj2 pending_action_monotonic q "act1" a 10%Z 20%Z) as [H1 [_ [H3 [H4 [_ [_ H7]]]]]];
    [reflexivity | reflexivity | cbn; lia |].
  split; [exact H1 |]. split; [exact H4 |]. rewrite H7, H3. reflexivity.
Defined.

End ConfirmationQueueFacts.

(* ================================================================= *)
(** ** Clamping *)

Module ClampFacts.
Import Clamp.

Example clamp_brightness : clamp 255 1 200 = 200%Z.
Proof. reflexivity. Qed.

Lemma clamp_in_range (v lo hi : Z) : (lo <= hi)%Z -> (lo <= clamp v lo hi <= hi)%Z.
Proof.
  intros H. unfold clamp.
  destruct (Z.ltb_spec v lo); [lia |]. destruct (Z.ltb_spec hi v); lia.
Qed.

Lemma clamp_id (v lo hi : Z) : (lo <= v <= hi)%Z -> clamp v lo hi = v.
Proof.
  intros H. unfold clamp.
  destruct (Z.ltb_spec v lo); [lia |]. destruct (Z.ltb_spec hi v); lia.
Qed.

Lemma clamp_params_cons (c : gmap string (Z * Z)) (p : string) (v : Z) (ps : list (string * Z)) :
  clamp_params c ((p, v) :: ps) =
  match c !! p with
  | Some (lo, hi) =>
      ((p, clamp v lo hi) :: fst (clamp_params c ps),
       negb (Z.eqb (clamp v lo hi) v) || snd (clamp_params c ps))
  | None => ((p, v) :: fst (clamp_params c ps), snd (clamp_params c ps))
  end.
Proof. reflexivity. Qed.

Lemma clamp_params_clamped (c : gmap string (Z * Z)) (ps : list (string * Z)) :
  (forall p lo hi, c !! p = Some (lo, hi) -> (lo <= hi)%Z) ->
  clamp_params c (fst (clamp_params c ps)) = (fst (clamp_params c ps), false).
Proof.
  intros Hc. induction ps as [|[p v] ps IH]; [reflexivity |].
  rewrite clamp_params_cons.
  destruct (c !! p) as [[lo hi]|] eqn:Hp; cbn [fst snd]; rewrite clamp_params_cons, Hp, IH;
    cbn [fst snd].
  - rewrite (clamp_id _ lo hi) by (apply clamp_in_range; eapply Hc; exact Hp).
    by rewrite Z.eqb_refl.
  - reflexivity.
Qed.

(** C4.  For a constraint interval [[min, max]] (so [min <= max]): a value
    inside it is unchanged, one below [min] becomes [min], one above [max]
    becomes [max], and clamping twice equals clamping once; over a whole
    request, clamping already-clamped parameters changes nothing and
    reports no clamping. *)
Theorem clamp_idempotent (lo hi v : Z) :
  (lo <= hi)%Z ->
  ((lo <= v <= hi)%Z -> clamp v lo hi = v) /\
  ((v < lo)%Z -> clamp v lo hi = lo) /\
  ((hi < v)%Z -> clamp v lo hi = hi) /\
  clamp (clamp v lo hi) lo hi = clamp v lo hi /\
  (forall (c : gmap string (Z * Z)) (ps : list (string * Z)),
     (forall p lo' hi', c !! p = Some (lo', hi') -> (lo' <= hi')%Z) ->
     clamp_params c (fst (clamp_params c ps)) = (fst (clamp_params c ps), false)).
Proof.
  intros Hlh. split; [apply clamp_id |]. split.
  { intros H. unfold clamp. destruct (Z.ltb_spec v lo); lia. }
  split.
  { intros H. unfold clamp. destruct (Z.ltb_spec v lo); [lia |]. destruct (Z.ltb_spec hi v); lia. }
  split; [apply clamp_id, clamp_in_range, Hlh |].
  intros c ps Hc. by apply clamp_params_clamped.
Qed.

Lemma clamp_idempotent_witness :
  clamp 255 1 200 = 200%Z /\ clamp 0 1 200 = 1%Z /\ clamp 100 1 200 = 100%Z.
Proof.
  destruct (clamp_idempotent 1 200 255) as [_ [_ [Hhi _]]]; [lia |].
  destruct (clamp_idempotent 1 200 0) as [_ [Hlo _]]; [lia |].
  destruct (clamp_idempotent 1 200 100) as [Hin _]; [lia |].
  split; [apply Hhi; lia |]. split; [apply Hlo; lia | apply Hin; lia].
Defined.

End ClampFacts.

(* ================================================================= *)
(** ** Schedules *)

Module ScheduleFacts.
Import Schedule.

Example parse_hhmm_ex : parse_hhmm "23:30" = Some 1410%Z.
Proof. reflexivity. Qed.

(** C5.  With an end time earlier than the start, a weekday of the
    schedule allows exactly the times at or after the start or before the
    end; for the night window 22:00-06:00 (every day), 23:30 and 02:00 are
    allowed and 12:00 is denied. *)
Theorem isAllowedNow_wraps_midnight :
  (forall (s : schedule) (st en : Z) (d : nat) (t : Z),
     parse_hhmm (sched_start s) = Some st -> parse_hhmm (sched_end s) = Some en ->
     (en < st)%Z -> In d (sched_days s) ->
     isAllowedNow (Some s) d t = ((st <=? t)%Z || (t <? en)%Z)) /\
  (forall d : nat, (d < 7)%nat ->
     let night := mkSchedule "Night" "22:00" "06:00" every_day in
     isAllowedNow (Some night) d (23 * 60 + 30) = true /\
     isAllowedNow (Some night) d (2 * 60) = true /\
     isAllowedNow (Some night) d (12 * 60) = false).
Proof.
  split.
  - intros s st en d t Hs He Hlt Hd. cbn [isAllowedNow]. rewrite Hs, He.
    assert (Hday : existsb (Nat.eqb d) (sched_days s) = true).
    { apply existsb_exists. exists d. split; [exact Hd | apply Nat.eqb_refl]. }
    rewrite Hday. unfold in_window. destruct (Z.leb_spec st en); [lia | reflexivity].
  - intros d Hd night.
    do 7 (destruct d as [|d]; [vm_compute; repeat split; reflexivity |]). lia.
Qed.

Lemma isAllowedNow_wraps_midnight_witness :
  Schedule.isAllowedNow (Some (mkSchedule "Night" "22:00" "06:00" every_day)) 3 (2 * 60) = true.
Proof.
  destruct (proj2 isAllowedNow_wraps_midnight 3%nat) as [_ [H _]]; [lia | exact H].
Defined.

End ScheduleFacts.

(* ================================================================= *)
(** ** Rate limiter *)

Module RateLimiterFacts.
Import RateLimiter.

(** Requests at 20 s and 75 s are rejected: each is the third of its window
    (the one at 20 s counted for the one at 75 s although it was rejected). *)
Example run_ex : run 2 [] [0; 10; 20; 71; 75]%Z =
  [(0, true); (10, true); (20, false); (71, true); (75, false)]%Z.
Proof. reflexivity. Qed.

Lemma filter_length_mono {A} (p q : A -> bool) (l : list A) :
  (forall x, In x l -> p x = true -> q x = true) ->
  (length (List.filter p l) <= length (List.filter q l))%nat.
Proof.
  induction l as [|x l IH]; intros H; [reflexivity |]. cbn.
  assert (IH' := IH (fun y Hy => H y (or_intror Hy))).
  destruct (p x) eqn:Hp; [rewrite (H x (or_introl eq_refl) Hp); cbn; lia |].
  destruct (q x); cbn; lia.
Qed.

Lemma filter_filter_weaker {A} (p q : A -> bool) (l : list A) :
  (forall x, In x l -> p x = true -> q x = true) ->
  List.filter p (List.filter q l) = List.filter p l.
Proof.
  induction l as [|x l IH]; intros H; [reflexivity |]. cbn.
  assert (IH' := IH (fun y Hy => H y (or_intror Hy))).
  destruct (p x) eqn:Hp.
  - rewrite (H x (or_introl eq_refl) Hp). cbn. rewrite Hp. f_equal. exact IH'.
  - destruct (q x); cbn; [rewrite Hp |]; exact IH'.
Qed.

Lemma filter_all {A} (p : A -> bool) (l : list A) :
  (forall x, In x l -> p x = true) -> List.filter p l = l.
Proof.
  induction l as [|x l IH]; intros H; [reflexivity |]. cbn.
  rewrite (H x (or_introl eq_refl)). f_equal. apply IH. intros y Hy. apply H. right. exact Hy.
Qed.

Lemma filter_none {A} (p : A -> bool) (l : list A) :
  (forall x, In x l -> p x = false) -> List.filter p l = [].
Proof.
  induction l as [|x l IH]; intros H; [reflexivity |]. cbn.
  rewrite (H x (or_introl eq_refl)). apply IH. intros y Hy. apply H. right. exact Hy.
Qed.

(** The decision on the [i]-th of time-ordered requests, from a log that
    holds the recent part of an earlier history [hist]: allowed iff fewer
    than [limit] requests of [hist] and of the [i] requests before it are
    at most 60 s older than it. *)
Lemma run_decisions (limit : nat) (reqs : list Z) :
  forall (log hist : list Z) (cur : Z),
  Sorted Z.le reqs -> Forall (Z.le cur) reqs ->
  log = List.filter (fun u => (cur - u <=? WINDOW)%Z) hist ->
  forall i, nth_error (run limit log reqs) i =
    match nth_error reqs i with
    | Some t => Some (t, (length (List.filter (fun u => (t - u <=? WINDOW)%Z) hist) +
                          length (List.filter (fun u => (t - u <=? WINDOW)%Z) (firstn i reqs))
                          <? limit)%nat)
    | None => None
    end.
Proof.
  induction reqs as [|n r IH]; intros log hist cur Hs Hge Hlog i.
  { destruct i; reflexivity. }
  apply Sorted_inv in Hs as [Hs Hhd].
  assert (Hr : Forall (Z.le n) r).
  { apply Sorted_extends; [intros x y z; lia | constructor; assumption]. }
  apply Forall_cons_iff in Hge as [Hcn _].
  assert (Hprune : prune n log = List.filter (fun u => (n - u <=? WINDOW)%Z) hist).
  { unfold prune. rewrite Hlog. apply filter_filter_weaker.
    intros t _ Ht. apply Z.leb_le. apply Z.leb_le in Ht. lia. }
  cbn [run]. unfold allow_log. rewrite Hprune.
  destruct i as [|j].
  - cbn [nth_error firstn List.filter length]. rewrite Nat.add_0_r. reflexivity.
  - cbn [nth_error].
    assert (Hlog' : n :: List.filter (fun u => (n - u <=? WINDOW)%Z) hist =
                    List.filter (fun u => (n - u <=? WINDOW)%Z) (n :: hist)).
    { cbn. replace (n - n <=? WINDOW)%Z with true by (symmetry; apply Z.leb_le; unfold WINDOW; lia).
      reflexivity. }
    rewrite (IH _ (n :: hist) n Hs Hr Hlog' j).
    destruct (nth_error r j) as [t|]; [|reflexivity].
    cbn [firstn List.filter].
    destruct (t - n <=? WINDOW)%Z; cbn [length]; [rewrite Nat.add_succ_r |]; reflexivity.
Qed.

Lemma run_from_empty (limit : nat) (reqs : list Z) (i : nat) :
  Sorted Z.le reqs ->
  nth_error (run limit [] reqs) i =
    match nth_error reqs i with
    | Some t => Some (t, (length (List.filter (fun u => (t - u <=? WINDOW)%Z) (firstn i reqs))
                          <? limit)%nat)
    | None => None
    end.
Proof.
  intros Hs. destruct reqs as [|n r]; [destruct i; reflexivity|].
  rewrite (run_decisions limit (n :: r) [] [] n Hs); [reflexivity | | reflexivity].
  constructor; [lia |]. apply Sorted_extends; [intros x y z; lia | exact Hs].
Qed.

(** A burst from a fresh identity inside one 60 s window: the first
    [limit - length log] requests are allowed, the rest rejected. *)
Lemma run_burst (limit : nat) (t0 : Z) (reqs : list Z) :
  forall log : list Z,
  (forall t, In t (log ++ reqs)%list -> t0 <= t <= t0 + WINDOW)%Z ->
  map snd (run limit log reqs) =
    (repeat true (Nat.min (limit - length log) (length reqs)) ++
     repeat false (length reqs - (limit - length log)))%list.
Proof.
  induction reqs as [|n r IH]; intros log Hin.
  { cbn. rewrite Nat.min_0_r. reflexivity. }
  assert (Hp : prune n log = log).
  { apply filter_all. intros t Ht. apply Z.leb_le.
    pose proof (Hin t (in_or_app log (n :: r) t (or_introl Ht))).
    pose proof (Hin n (in_or_app log (n :: r) n (or_intror (or_introl eq_refl)))).
    unfold WINDOW in *. lia. }
  cbn [run]. unfold allow_log. rewrite Hp.
  assert (Hin' : forall t, In t ((n :: log) ++ r)%list -> (t0 <= t <= t0 + WINDOW)%Z).
  { intros t Ht. apply Hin. cbn in Ht |- *. rewrite in_app_iff in Ht |- *. cbn. tauto. }
  cbn [map snd]. rewrite (IH (n :: log) Hin'). cbn [length].
  destruct (Nat.ltb_spec (length log) limit) as [Hlt | Hge].
  - destruct (limit - length log) as [|k] eqn:Hk; [lia |].
    replace (limit - S (length log)) with k by lia. reflexivity.
  - replace (limit - length log) with 0 by lia.
    replace (limit - S (length log)) with 0 by lia. rewrite !Nat.sub_0_r. reflexivity.
Qed.

(** C6, as stated, fails for every limiter: none can allow the first [N]
    requests of every rolling window while rejecting the ones after the
    [N]-th, since a window may open just after requests that still count.
    With [N = 1] and requests at 0 s and 30 s, the window [[0, 60]] requires
    the request at 30 s to be rejected and the window [[30, 90]] requires it
    to be allowed. *)
Lemma rate_first_N_of_every_window_fails :
  ~ exists out : list (Z * bool),
      map fst out = [0; 30]%Z /\ first_N_allowed 1 out /\ beyond_N_rejected 1 out.
Proof.
  intros [out [Hout [H1 H2]]].
  destruct out as [|[t1 b1] [|[t2 b2] [|? ?]]]; try discriminate.
  cbn in Hout. injection Hout as -> ->.
  specialize (H1 30%Z). specialize (H2 0%Z). vm_compute in H1, H2.
  apply Forall_cons_iff in H1 as [H1 _]. apply Forall_cons_iff in H2 as [H2 _].
  cbn in H1, H2. congruence.
Qed.

(** C6 (amended).  For time-ordered requests of one identity with limit
    [N]: a request is allowed iff fewer than [N] earlier requests (allowed
    or not) are at most 60 s older than it; hence a request preceded by [N]
    requests of a 60 s window that also holds it, the [(N+1)]-th of that
    window in particular, is rejected; a request whose earlier requests are
    all more than 60 s old is allowed (for [N >= 1]); and for a fresh
    identity whose requests all fall in one 60 s window, exactly the first
    [N] are allowed and every later one is rejected. *)
Theorem rate_limit_sliding_window :
  (forall (limit : nat) (reqs : list Z) (i : nat) (t : Z),
     Sorted Z.le reqs -> nth_error reqs i = Some t ->
     nth_error (run limit [] reqs) i =
       Some (t, (length (List.filter (fun u => (t - u <=? WINDOW)%Z) (firstn i reqs))
                 <? limit)%nat)) /\
  (forall (limit : nat) (reqs : list Z) (i : nat) (t a : Z),
     Sorted Z.le reqs -> nth_error reqs i = Some t ->
     in_win a t = true -> (limit <= count_win a (firstn i reqs))%nat ->
     nth_error (run limit [] reqs) i = Some (t, false)) /\
  (forall (limit : nat) (reqs : list Z) (i : nat) (t : Z),
     Sorted Z.le reqs -> nth_error reqs i = Some t -> (0 < limit)%nat ->
     Forall (fun u => t - u > WINDOW)%Z (firstn i reqs) ->
     nth_error (run limit [] reqs) i = Some (t, true)) /\
  (forall (limit : nat) (t0 : Z) (reqs : list Z),
     (forall t, In t reqs -> t0 <= t <= t0 + WINDOW)%Z ->
     map snd (run limit [] reqs) =
       (repeat true (Nat.min limit (length reqs)) ++ repeat false (length reqs - limit))%list).
Proof.
  split; [| split; [| split]].
  - intros limit reqs i t Hs Ht. by rewrite run_from_empty, Ht.
  - intros limit reqs i t a Hs Ht Hw Hc. rewrite run_from_empty, Ht by exact Hs.
    do 2 f_equal. apply Nat.ltb_ge. etransitivity; [exact Hc |].
    apply filter_length_mono. intros u _ Hu.
    unfold in_win in Hw, Hu. apply andb_true_iff in Hw as [Hw1 Hw2].
    apply andb_true_iff in Hu as [Hu1 Hu2].
    apply Z.leb_le in Hw1, Hw2, Hu1, Hu2. apply Z.leb_le. lia.
  - intros limit reqs i t Hs Ht Hl Hold. rewrite run_from_empty, Ht by exact Hs.
    rewrite filter_none; [destruct limit; [lia | reflexivity] |].
    intros u Hu. rewrite List.Forall_forall in Hold. specialize (Hold u Hu).
    apply Z.leb_gt. lia.
  - intros limit t0 reqs Hin.
    rewrite (run_burst limit t0 reqs [] Hin). cbn [length]. rewrite Nat.sub_0_r. reflexivity.
Qed.

Lemma rate_limit_sliding_window_witness :
  nth_error (run 1 [] [0; 30; 61]%Z) 2 = Some (61%Z, false) /\
  nth_error (run 1 [] [0; 100]%Z) 1 = Some (100%Z, true) /\
  map snd (run 2 [] [0; 10; 20; 30]%Z) = [true; true; false; false].
Proof.
  destruct rate_limit_sliding_window as [_ [Hw [Hr Hb]]]. split; [| split].
  - apply (Hw 1%nat [0; 30; 61]%Z 2%nat 61%Z 30%Z); [| reflexivity | reflexivity | vm_compute; lia].
    repeat constructor; lia.
  - apply Hr; [| reflexivity | lia | repeat constructor; unfold WINDOW; lia].
    repeat constructor; lia.
  - rewrite (Hb 2%nat 0%Z [0; 10; 20; 30]%Z); [reflexivity |].
    intros t Ht. cbn in Ht. unfold WINDOW. lia.
Defined.

End RateLimiterFacts.

(* ================================================================= *)
(** ** API keys *)

Module ApiKeysFacts.
Import ApiKeys.

Lemma list_keys_erase (store : gmap string api_key) :
  list_keys store = list_keys (erase <$> store).
Proof.
  unfold list_keys. rewrite map_to_list_fmap, <- list_fmap_compose.
  apply list_fmap_ext. intros i [k a] _. reflexivity.
Qed.

Lemma run_key_ops_erase (hash : string -> string -> string) (ops : list key_op) :
  forall st1 st2 : gmap string api_key,
  erase <$> st1 = erase <$> st2 ->
  erase <$> run_key_ops hash ops st1 = erase <$> run_key_ops hash ops st2.
Proof.
  induction ops as [|o ops IH]; intros st1 st2 H; [exact H |].
  destruct o as [id name salt secret scope rl | id]; cbn [run_key_ops]; apply IH.
  - cbn [issue fst]. rewrite !fmap_insert, H. reflexivity.
  - unfold revoke. rewrite !fmap_delete, H. reflexivity.
Qed.

(** C7, as stated, fails: the listing shows each key's preview, which is
    cut from the raw secret, so two keys that differ only in their secrets'
    first characters are listed differently. *)
Lemma key_listing_depends_on_secret_prefix :
  loadApiKeys (list_keys (store_with (fun salt s => salt ++ s) "cb_aaaaaaaa1111"))
  <> loadApiKeys (list_keys (store_with (fun salt s => salt ++ s) "cb_bbbbbbbb1111")).
Proof. vm_compute. discriminate. Qed.

(** C7 (amended).  The creation response is where the raw secret is shown;
    afterwards, whatever keys are issued or revoked, the rendered key list
    depends on a key's secret only through its truncated preview: two
    secrets with the same preview give the same listing. *)
Theorem key_listing_depends_only_on_preview
    (hash : string -> string -> string) (store : gmap string api_key) (ops : list key_op)
    (id name salt s1 s2 : string) (scope : option (list string)) (rl : option nat) :
  preview s1 = preview s2 ->
  createApiKey_text (snd (snd (issue hash store id name salt s1 scope rl))) =
    "Key created! Copy this (shown once):" ++ nl ++ s1 /\
  loadApiKeys (list_keys (run_key_ops hash ops (fst (issue hash store id name salt s1 scope rl)))) =
  loadApiKeys (list_keys (run_key_ops hash ops (fst (issue hash store id name salt s2 scope rl)))).
Proof.
  intros Hp. split; [reflexivity |].
  rewrite (list_keys_erase (run_key_ops _ _ (fst (issue _ _ _ _ _ s1 _ _)))),
          (list_keys_erase (run_key_ops _ _ (fst (issue _ _ _ _ _ s2 _ _)))).
  f_equal. f_equal. apply run_key_ops_erase.
  cbn [issue fst]. rewrite !fmap_insert. unfold erase at 1 3. cbn. rewrite Hp. reflexivity.
Qed.

Lemma key_listing_depends_only_on_preview_witness :
  preview "cb_aaaaaaaa1111" = preview "cb_aaaaaaaa2222" /\
  loadApiKeys (list_keys (store_with (fun salt s => salt ++ s) "cb_aaaaaaaa1111")) =
  loadApiKeys (list_keys (store_with (fun salt s => salt ++ s) "cb_aaaaaaaa2222")).
Proof.
  assert (Hp : preview "cb_aaaaaaaa1111" = preview "cb_aaaaaaaa2222") by reflexivity.
  split; [exact Hp |].
  exact (proj2 (key_listing_depends_only_on_preview (fun salt s => salt ++ s) ∅ []
                  "k1" "agent" "salt" "cb_aaaaaaaa1111" "cb_aaaaaaaa2222" None None Hp)).
Defined.

End ApiKeysFacts.

(* ================================================================= *)
(** ** Further properties of the dashboard *)

Module DashboardFacts.

(** *** The exposed counts *)

Lemma count_levels_sum (l : list access) :
  length (List.filter (fun v => bool_decide (v = Read)) l) +
  length (List.filter (fun v => bool_decide (v = Confirm)) l) +
  length (List.filter (fun v => bool_decide (v = Control)) l) = length l.
Proof. induction l as [|[] l IH]; simpl; lia. Qed.

(** [updateExposedCount]: the read, confirm and control counts always add
    up to the total of exposed entities. *)
Theorem countByAccess_sum_total (ex : gmap string access) :
  countByAccess ex Read + countByAccess ex Confirm + countByAccess ex Control
  = exposed_total ex.
Proof.
  unfold countByAccess, exposed_total. rewrite count_levels_sum. apply length_map.
Qed.

(** *** [setEntityAccess] *)

(** A request for one entity never changes the level of another one. *)
Theorem setEntityAccess_frame (s : ui) (id k : string) (a : option access) :
  k <> id -> exposedEntities (setEntityAccess s id a) !! k = exposedEntities s !! k.
Proof.
  intros Hk. unfold setEntityAccess.
  destruct (is_confirm_or_control a && _); [done|].
  destruct (is_confirm_or_control a && _); [done|].
  destruct a; simpl; [by rewrite lookup_insert_ne | by rewrite lookup_delete_ne].
Qed.

Lemma setEntityAccess_frame_witness :
  "light.a" <> "light.b" /\
  exposedEntities (setEntityAccess (mkUi {[ "light.a" := Read ]} None None false)
                     "light.b" (Some Control)) !! "light.a" = Some Read.
Proof.
  split; [done|].
  rewrite (setEntityAccess_frame _ "light.b" "light.a"); [|done].
  simpl. by rewrite lookup_singleton_eq.
Defined.

(** The sensitive modal holds one staged change: a second sensitive request
    before the operator confirms replaces the first, and confirming applies
    only the second. *)
Theorem sensitive_latest_request_wins (s : ui) (id1 id2 : string) (a1 a2 : access) :
  list_includes SENSITIVE_DOMAINS (split_dot_head id1) = true ->
  list_includes SENSITIVE_DOMAINS (split_dot_head id2) = true ->
  a1 <> Read -> a2 <> Read ->
  exposedEntities
    (confirmSensitiveModal (setEntityAccess (setEntityAccess s id1 (Some a1)) id2 (Some a2)))
  = <[id2 := a2]> (exposedEntities s).
Proof.
  intros H1 H2 Ha1 Ha2. unfold setEntityAccess.
  rewrite (sensitive_not_read_only _ H1), (sensitive_not_read_only _ H2), H1, H2.
  assert (Hc : forall a, a <> Read -> is_confirm_or_control (Some a) = true)
    by (intros [] ?; done).
  rewrite !Hc by done. reflexivity.
Qed.

Lemma sensitive_latest_request_wins_witness :
  exposedEntities
    (confirmSensitiveModal
       (setEntityAccess (setEntityAccess (mkUi ∅ None None false) "lock.front" (Some Control))
          "valve.main" (Some Confirm)))
  = <[ "valve.main" := Confirm ]> ∅.
Proof. apply (sensitive_latest_request_wins (mkUi ∅ None None false)); done. Defined.

(** Cancelling the sensitive modal discards the staged change: the map is
    the one before the request, nothing stays staged, and a later confirm
    does nothing. *)
Theorem cancel_discards_staged (s : ui) (id : string) (a : access) :
  list_includes SENSITIVE_DOMAINS (split_dot_head id) = true -> a <> Read ->
  let s' := cancelSensitiveModal (setEntityAccess s id (Some a)) in
  exposedEntities s' = exposedEntities s /\ pendingSensitiveCallback s' = None /\
  confirmSensitiveModal s' = s'.
Proof.
  intros H Ha s'. subst s'. unfold setEntityAccess.
  rewrite (sensitive_not_read_only _ H), H.
  destruct a; [done| |]; simpl; auto.
Qed.

Lemma cancel_discards_staged_witness :
  let s := mkUi {[ "lock.front" := Read ]} None None false in
  let s' := cancelSensitiveModal (setEntityAccess s "lock.front" (Some Control)) in
  exposedEntities s' = exposedEntities s /\ pendingSensitiveCallback s' = None /\
  confirmSensitiveModal s' = s'.
Proof.
  intros s. apply (cancel_discards_staged s "lock.front" Control); [reflexivity | discriminate].
Defined.

(** *** Bulk operations *)

Lemma lookup_set_all (es : list entity) (a : access) (m : gmap string access) (k : string) :
  set_all es a m !! k =
  if bool_decide (k ∈ map entity_id es) then Some a else m !! k.
Proof.
  unfold set_all. revert m. induction es as [|e es IH]; intros m; cbn [fold_left map].
  - rewrite bool_decide_false; [done | set_solver].
  - rewrite IH. destruct (decide (k = entity_id e)) as [->|Hne].
    + rewrite lookup_insert_eq.
      destruct (bool_decide (entity_id e ∈ map entity_id es)); rewrite ?bool_decide_true; set_solver.
    + rewrite lookup_insert_ne by congruence.
      destruct (bool_decide (k ∈ map entity_id es)) eqn:E.
      * apply bool_decide_eq_true in E. rewrite bool_decide_true by set_solver. done.
      * apply bool_decide_eq_false in E. rewrite bool_decide_false by set_solver. done.
Qed.

Lemma lookup_delete_all (es : list entity) (m : gmap string access) (k : string) :
  delete_all es m !! k = if bool_decide (k ∈ map entity_id es) then None else m !! k.
Proof.
  unfold delete_all. revert m. induction es as [|e es IH]; intros m; cbn [fold_left map].
  - rewrite bool_decide_false; [done | set_solver].
  - rewrite IH. destruct (decide (k = entity_id e)) as [->|Hne].
    + rewrite lookup_delete_eq.
      destruct (bool_decide (entity_id e ∈ map entity_id es)); rewrite ?bool_decide_true; set_solver.
    + rewrite lookup_delete_ne by congruence.
      destruct (bool_decide (k ∈ map entity_id es)) eqn:E.
      * apply bool_decide_eq_true in E. rewrite bool_decide_true by set_solver. done.
      * apply bool_decide_eq_false in E. rewrite bool_decide_false by set_solver. done.
Qed.

(** [selectAllVisible(a)]: exactly the visible entities get the level [a];
    every other entry keeps its level. *)
Theorem selectAllVisible_effect (s : ui) (v : view) (a : access) (k : string) :
  exposedEntities (selectAllVisible s v a) !! k =
  if bool_decide (k ∈ map entity_id (getVisibleEntities v (exposedEntities s)))
  then Some a else exposedEntities s !! k.
Proof.
  unfold selectAllVisible.
  destruct (getVisibleEntities v (exposedEntities s)) as [|e es] eqn:E.
  - rewrite bool_decide_false; [reflexivity | set_solver].
  - rewrite <- E. simpl. by rewrite lookup_set_all.
Qed.

(** [deselectAllVisible]: once it proceeds (no dialog, or the dialog
    accepted), exactly the visible entities lose their entry; the others
    keep theirs. *)
Theorem deselectAllVisible_effect (s : ui) (v : view) (confirmed : bool) (k : string) :
  deselect_asks v = false \/ confirmed = true ->
  exposedEntities (deselectAllVisible s v confirmed) !! k =
  if bool_decide (k ∈ map entity_id (getVisibleEntities v (exposedEntities s)))
  then None else exposedEntities s !! k.
Proof.
  intros Hc. unfold deselectAllVisible.
  destruct (getVisibleEntities v (exposedEntities s)) as [|e es] eqn:E.
  - rewrite bool_decide_false; [reflexivity | set_solver].
  - rewrite <- E.
    assert (Hn : deselect_asks v && negb confirmed = false)
      by (destruct Hc as [-> | ->]; [done | apply andb_false_r]).
    rewrite Hn. simpl. by rewrite lookup_delete_all.
Qed.

Lemma deselectAllVisible_effect_witness :
  let s := mkUi {[ "light.a" := Read ]} None None false in
  let v := mkView "" (Some "__all__") [("light", [mkEntity "light.a" "light" "A"])] [] in
  (deselect_asks v = false \/ true = true) /\
  exposedEntities (deselectAllVisible s v true) !! "light.a" = None.
Proof.
  intros s v. split; [left; reflexivity|].
  rewrite (deselectAllVisible_effect s v true "light.a"); [|right; reflexivity].
  rewrite bool_decide_true; [reflexivity|].
  apply list_elem_of_In. vm_compute. left. reflexivity.
Defined.

(** On the unfiltered Exposed view, accepting the dialog removes every
    exposed entity that is loaded, while declining it changes nothing. *)
Theorem deselect_exposed_view (s : ui) (v : view) :
  activeDomain v = Some "__exposed__" -> toLowerCase (searchInput v) = "" ->
  getExposedEntities (exposedEntities (deselectAllVisible s v true)) v = [] /\
  deselectAllVisible s v false = s.
Proof.
  intros Hd Hs.
  assert (Hv : getVisibleEntities v (exposedEntities s) = getExposedEntities (exposedEntities s) v)
    by (unfold getVisibleEntities; rewrite Hs, Hd; reflexivity).
  assert (Ha : deselect_asks v = true) by (unfold deselect_asks; rewrite Hs, Hd; reflexivity).
  split.
  - assert (Hk : forall k, exposedEntities (deselectAllVisible s v true) !! k =
            if bool_decide (k ∈ map entity_id (getExposedEntities (exposedEntities s) v))
            then None else exposedEntities s !! k)
      by (intros k; rewrite <- Hv; apply deselectAllVisible_effect; by right).
    destruct (getExposedEntities (exposedEntities (deselectAllVisible s v true)) v)
      as [|e es] eqn:E; [done|].
    exfalso. assert (He : In e (getExposedEntities (exposedEntities (deselectAllVisible s v true)) v))
      by (rewrite E; left; done).
    pose proof (getExposedEntities_present _ _ _ He) as Hp.
    unfold getExposedEntities in He. apply filter_In in He as [Hin _].
    rewrite Hk in Hp. destruct (bool_decide _) eqn:B; [by destruct Hp|].
    apply bool_decide_eq_false in B. apply B, list_elem_of_In, in_map.
    unfold getExposedEntities. apply filter_In. split; [done|]. by apply bool_decide_eq_true.
  - unfold deselectAllVisible. rewrite Ha. by destruct (getVisibleEntities _ _).
Qed.

Lemma deselect_exposed_view_witness :
  let v := mkView "" (Some "__exposed__") [("light", [mkEntity "light.a" "light" "A"])] [] in
  let s := mkUi {[ "light.a" := Read ]} None None false in
  getExposedEntities (exposedEntities (deselectAllVisible s v true)) v = [] /\
  deselectAllVisible s v false = s.
Proof. apply deselect_exposed_view; reflexivity. Defined.

(** *** Undo *)

Lemma setEntityAccess_undoSnapshot (s : ui) (id : string) (a : option access) :
  undoSnapshot (setEntityAccess s id a) = undoSnapshot s.
Proof.
  unfold setEntityAccess.
  destruct (is_confirm_or_control a && _); [done|].
  destruct (is_confirm_or_control a && _); [done|].
  by destruct a.
Qed.

(** Single-entity edits do not push an undo snapshot: an undo after a bulk
    select followed by such an edit goes back to the map before the bulk
    select, discarding the edit too. *)
Theorem undo_reverts_later_single_edit (s : ui) (v : view) (a : access)
    (id : string) (l : option access) :
  getVisibleEntities v (exposedEntities s) <> [] ->
  exposedEntities (undo (setEntityAccess (selectAllVisible s v a) id l)) = exposedEntities s.
Proof.
  intros Hne. unfold undo. rewrite setEntityAccess_undoSnapshot.
  unfold selectAllVisible. destruct (getVisibleEntities v (exposedEntities s)); done.
Qed.

Lemma undo_reverts_later_single_edit_witness :
  let v := mkView "" (Some "__all__") [("light", [mkEntity "light.a" "light" "A"])] [] in
  getVisibleEntities v ∅ <> [] /\
  exposedEntities (undo (setEntityAccess (selectAllVisible (mkUi ∅ None None false) v Read)
                           "fan.b" (Some Control))) = ∅.
Proof.
  split; [discriminate|].
  apply (undo_reverts_later_single_edit (mkUi ∅ None None false)). discriminate.
Defined.

(** Undo is single-level: it clears the snapshot, so a second undo does
    nothing. *)
Theorem undo_twice (s : ui) : undo (undo s) = undo s.
Proof. unfold undo. destruct (undoSnapshot s) eqn:E; [reflexivity | by rewrite E]. Qed.

(** *** [getVisibleEntities] *)

Lemma assoc_in_values {A} (k : string) (l : list (string * A)) (x : A) :
  assoc k l = Some x -> In x (map snd l).
Proof.
  induction l as [|[k' y] l IH]; simpl; [done|].
  destruct (String.eqb k k'); [intros [= ->]; by left | intros H; right; auto].
Qed.

(** Every visible entity is one of the loaded entities. *)
Theorem visible_entities_loaded (v : view) (ex : gmap string access) (e : entity) :
  In e (getVisibleEntities v ex) -> In e (getAllEntitiesFlat v).
Proof.
  unfold getVisibleEntities, getExposedEntities.
  destruct (truthy _); [rewrite filter_In; tauto|].
  destruct (activeDomain v) as [d|]; [|done].
  destruct (String.eqb d "__exposed__"); [rewrite filter_In; tauto|].
  destruct (String.eqb d "__all__"); [done|].
  destruct (truthy d && String.prefix "group:" d); [rewrite filter_In; tauto|].
  destruct (truthy d); [|done].
  destruct (assoc d (allDomains v)) as [l|] eqn:E; [|done].
  intros H. unfold getAllEntitiesFlat. apply in_concat. exists l.
  split; [eapply assoc_in_values; eauto | done].
Qed.

Lemma visible_entities_loaded_witness :
  let v := mkView "" (Some "light") [("light", [mkEntity "light.a" "light" "A"])] [] in
  In (mkEntity "light.a" "light" "A") (getVisibleEntities v ∅) /\
  In (mkEntity "light.a" "light" "A") (getAllEntitiesFlat v).
Proof.
  assert (H : In (mkEntity "light.a" "light" "A")
    (getVisibleEntities (mkView "" (Some "light") [("light", [mkEntity "light.a" "light" "A"])] []) ∅))
    by (simpl; left; reflexivity).
  split; [exact H | exact (visible_entities_loaded _ _ _ H)].
Defined.

(** [selectGroup(id)] sets [activeDomain = 'group:' + id]; with an empty
    search box the visible entities are then exactly the loaded entities the
    group lists, and none for an unknown group. *)
Theorem group_view_members (v : view) (ex : gmap string access) (g : string) :
  activeDomain v = Some ("group:" ++ g) -> toLowerCase (searchInput v) = "" ->
  getVisibleEntities v ex =
  List.filter (fun e => list_includes (match assoc g (entityGroups v) with
                                       | Some ids => ids | None => [] end) (entity_id e))
              (getAllEntitiesFlat v).
Proof.
  intros Hd Hs. unfold getVisibleEntities. rewrite Hs, Hd.
  assert (H0 : truthy "" = false) by reflexivity.
  assert (H1 : String.eqb ("group:" ++ g) "__exposed__" = false) by reflexivity.
  assert (H2 : String.eqb ("group:" ++ g) "__all__" = false) by reflexivity.
  assert (H3 : truthy ("group:" ++ g) && String.prefix "group:" ("group:" ++ g) = true)
    by (destruct g; vm_compute; reflexivity).
  assert (H4 : slice 6 ("group:" ++ g) = g) by reflexivity.
  rewrite H0, H1, H2, H3, H4. reflexivity.
Qed.

Lemma group_view_members_witness :
  let v := mkView "" (Some "group:g1")
             [("light", [mkEntity "light.a" "light" "A"; mkEntity "light.b" "light" "B"])]
             [("g1", ["light.b"])] in
  getVisibleEntities v ∅ = [mkEntity "light.b" "light" "B"].
Proof.
  intros v. rewrite (group_view_members v ∅ "g1"); reflexivity.
Defined.

(** *** The constraints editor *)

Lemma list_includes_In (l : list string) (x : string) :
  list_includes l x = true <-> In x l.
Proof.
  unfold list_includes. rewrite existsb_exists. split.
  - intros [y [Hy Heq]]. apply String.eqb_eq in Heq. by subst.
  - intros H. exists x. split; [done | apply String.eqb_refl].
Qed.

Lemma constraint_candidates_NoDup (d : string) : NoDup (constraint_candidates d).
Proof.
  unfold constraint_candidates, list_includes; simpl.
  destruct (String.eqb_spec d "light"); [subst; simpl; repeat constructor; set_solver|].
  destruct (String.eqb_spec d "climate"); [subst; simpl; repeat constructor; set_solver|].
  destruct (String.eqb_spec d "fan"); [subst; simpl; repeat constructor; set_solver|].
  destruct (String.eqb_spec d "cover"); [subst; simpl; repeat constructor; set_solver|].
  destruct (String.eqb_spec d "number"); [subst; simpl; repeat constructor; set_solver|].
  destruct (String.eqb_spec d "input_number"); [subst; simpl; repeat constructor; set_solver|].
  simpl. constructor.
Qed.

Lemma fold_add_missing (existing ps : list string) :
  NoDup ps ->
  NoDup (fold_left (fun ps p => if list_includes ps p then ps else (ps ++ [p])%list) existing ps) /\
  (forall p, In p (fold_left (fun ps p => if list_includes ps p then ps else (ps ++ [p])%list)
                             existing ps) <-> In p ps \/ In p existing).
Proof.
  revert ps. induction existing as [|x existing IH]; intros ps Hnd; simpl.
  - split; [done | tauto].
  - destruct (list_includes ps x) eqn:Hx.
    + apply list_includes_In in Hx. destruct (IH ps Hnd) as [H1 H2].
      split; [done|]. intros p. rewrite H2. split; [tauto|].
      intros [H|[<-|H]]; tauto.
    + assert (Hnd' : NoDup (ps ++ [x])%list).
      { apply NoDup_app. split; [done|]. split; [|constructor; [set_solver | constructor]].
        intros y Hy Hy'. apply list_elem_of_singleton in Hy'. subst y.
        apply list_elem_of_In in Hy. apply list_includes_In in Hy. congruence. }
      destruct (IH _ Hnd') as [H1 H2]. split; [done|]. intros p. rewrite H2, in_app_iff.
      simpl. tauto.
Qed.

(** [showConstraintsModal]: the editor lists each parameter once; it lists
    exactly the domain's candidates the entity has among its attributes,
    ["value"] for a domain without candidates, and every parameter that
    already has a constraint, attribute or not. *)
Theorem constraint_params_rows (entityId : string) (attrKeys existing : list string) :
  NoDup (constraint_params entityId attrKeys existing) /\
  forall p, In p (constraint_params entityId attrKeys existing) <->
    (In p (constraint_candidates (split_dot_head entityId)) /\ In p attrKeys) \/
    (p = "value" /\ constraint_candidates (split_dot_head entityId) = []) \/
    In p existing.
Proof.
  unfold constraint_params.
  set (cs := constraint_candidates (split_dot_head entityId)).
  assert (Hcs : NoDup cs) by apply constraint_candidates_NoDup.
  set (ps0 := List.filter (fun p => list_includes attrKeys p) cs).
  assert (Hps0 : forall p, In p ps0 <-> In p cs /\ In p attrKeys).
  { intros p. unfold ps0. rewrite filter_In, list_includes_In. tauto. }
  assert (Hnd0 : NoDup ps0) by (apply NoDup_ListNoDup, List.NoDup_filter, NoDup_ListNoDup, Hcs).
  destruct cs as [|c cs'] eqn:Ecs.
  - simpl. destruct (fold_add_missing existing ["value"]) as [H1 H2]; [repeat constructor; set_solver|].
    split; [done|]. intros p. rewrite H2. simpl. intuition congruence.
  - assert (Hb : ((length ps0 =? 0)%nat && (length (c :: cs') =? 0)%nat) = false)
      by apply andb_false_r.
    rewrite Hb. destruct (fold_add_missing existing ps0 Hnd0) as [H1 H2].
    split; [done|]. intros p. rewrite H2, Hps0. intuition discriminate.
Qed.

(** *** Saving constraints *)

Section SaveFacts.

Context {number : Type} (parseFloat : string -> number).

Definition bounded (cs : gmap string (constr number)) (p : string) : bool :=
  match cs !! p with Some c => has_bound number c | None => false end.

Lemma collect_bounded (inputs : list (string * bound * string)) (cs : gmap string (constr number))
    (p : string) :
  bounded (fold_left (record_input number parseFloat) inputs cs) p = true <->
  bounded cs p = true \/ exists ty val, In (p, ty, val) inputs /\ val <> "".
Proof.
  revert cs. induction inputs as [|[[q ty] val] inputs IH]; intros cs; simpl.
  - split; [tauto|]. intros [H | [? [? [[] _]]]]; done.
  - rewrite IH. unfold bounded at 1. simpl.
    destruct (decide (p = q)) as [->|Hne].
    + rewrite lookup_insert_eq.
      destruct (String.eqb_spec val "") as [->|Hv].
      * unfold bounded. destruct (cs !! q) as [c|]; simpl.
        -- split; [intros [H|[ty' [val' [Hin Hv']]]]; [tauto | right; exists ty', val'; tauto]|].
           intros [H|[ty' [val' [[Heq|Hin] Hv']]]]; [tauto| |]; [injection Heq; intros; subst; done|].
           right; exists ty', val'; tauto.
        -- split; [intros [H|[ty' [val' [Hin Hv']]]]; [done | right; exists ty', val'; tauto]|].
           intros [H|[ty' [val' [[Heq|Hin] Hv']]]]; [done| |]; [injection Heq; intros; subst; done|].
           right; exists ty', val'; tauto.
      * assert (Hs : forall c, has_bound number (set_bound number ty (parseFloat val) c) = true)
          by (intros c; destruct ty, c as [[]  []]; done).
        split; [intros _; right; exists ty, val; split; [by left | done]|].
        intros _. left. destruct (cs !! q); apply Hs.
    + rewrite lookup_insert_ne by congruence. fold (bounded cs p).
      split; intros [H|[ty' [val' [Hin Hv']]]]; try tauto.
      * right. exists ty', val'. tauto.
      * destruct Hin as [Heq|Hin]; [injection Heq; intros; congruence|].
        right. exists ty', val'. tauto.
Qed.

End SaveFacts.

(** [saveConstraintsFromModal]: a parameter is kept in the saved object
    exactly when at least one of its min/max inputs is non-empty. *)
Theorem saved_param_iff_nonempty_input {number : Type} (parseFloat : string -> number)
    (inputs : list (string * bound * string)) (p : string) :
  is_Some (clean_constraints number (collect_constraints number parseFloat inputs) !! p) <->
  exists ty val, In (p, ty, val) inputs /\ val <> "".
Proof.
  unfold clean_constraints, collect_constraints.
  transitivity (bounded (fold_left (record_input number parseFloat) inputs ∅) p = true).
  2:{ rewrite collect_bounded. unfold bounded at 1. rewrite lookup_empty.
      split; [intros [H|H]; [discriminate | exact H] | by right]. }
  unfold bounded. split.
  - intros [c Hc]. apply map_lookup_filter_Some in Hc as [-> Hb]. done.
  - destruct (fold_left _ inputs ∅ !! p) as [c|] eqn:E; [|done]. intros Hb.
    exists c. apply map_lookup_filter_Some. done.
Qed.

(** The saved constraints of every entity are a non-empty object whose
    every parameter has a bound; an entity whose inputs are all empty loses
    its entry. *)
Definition constraints_wf {number : Type} (ec : gmap string (gmap string (constr number))) : Prop :=
  forall id cm, ec !! id = Some cm ->
    cm <> ∅ /\ forall p c, cm !! p = Some c -> has_bound number c = true.

Theorem saveConstraints_wf {number : Type} (parseFloat : string -> number)
    (ec : gmap string (gmap string (constr number))) (id : string)
    (inputs : list (string * bound * string)) :
  constraints_wf ec ->
  constraints_wf (saveConstraintsFromModal number parseFloat ec id inputs) /\
  (saveConstraintsFromModal number parseFloat ec id inputs !! id = None <->
   forall p ty val, In (p, ty, val) inputs -> val = "").
Proof.
  intros Hwf. unfold saveConstraintsFromModal.
  set (clean := clean_constraints number (collect_constraints number parseFloat inputs)).
  assert (Hclean : forall p c, clean !! p = Some c -> has_bound number c = true)
    by (intros p c Hc; apply map_lookup_filter_Some in Hc; tauto).
  assert (Hempty : clean = ∅ <-> forall p ty val, In (p, ty, val) inputs -> val = "").
  { split.
    - intros He p ty val Hin. destruct (String.eqb_spec val "") as [|Hv]; [done|].
      exfalso. assert (Hs : is_Some (clean !! p))
        by (apply saved_param_iff_nonempty_input; eauto).
      rewrite He, lookup_empty in Hs. by destruct Hs.
    - intros Hall. apply map_empty. intros p.
      destruct (clean !! p) eqn:E; [|done]. exfalso.
      assert (Hs : is_Some (clean !! p)) by eauto.
      apply saved_param_iff_nonempty_input in Hs as [ty [val [Hin Hv]]].
      apply Hv. eapply Hall; eauto. }
  destruct (Nat.ltb_spec 0 (size clean)) as [Hlt|Hge].
  - assert (Hne : clean <> ∅) by (intros ->; rewrite map_size_empty in Hlt; lia).
    split.
    + intros id' cm. destruct (decide (id' = id)) as [->|Hid].
      * rewrite lookup_insert_eq. intros [= <-]. split; [done | exact Hclean].
      * rewrite lookup_insert_ne by congruence. apply Hwf.
    + rewrite lookup_insert_eq. split; [done|]. intros H. by apply Hempty in H.
  - assert (He : clean = ∅) by (apply map_size_empty_iff; lia).
    split.
    + intros id' cm. destruct (decide (id' = id)) as [->|Hid].
      * by rewrite lookup_delete_eq.
      * rewrite lookup_delete_ne by congruence. apply Hwf.
    + rewrite lookup_delete_eq. split; [intros _; by apply Hempty | done].
Qed.

Lemma saveConstraints_wf_witness :
  constraints_wf (number := nat) ∅ /\
  saveConstraintsFromModal nat String.length ∅ "light.a"
    [("brightness", Min, ""); ("brightness", Max, "200")] !! "light.a" <> None.
Proof.
  assert (H0 : constraints_wf (number := nat) ∅)
    by (intros id cm Hc; by rewrite lookup_empty in Hc).
  split; [exact H0|].
  destruct (saveConstraints_wf String.length ∅ "light.a"
              [("brightness", Min, ""); ("brightness", Max, "200")] H0) as [_ H].
  rewrite H. intros Hall. specialize (Hall "brightness" Max "200" ltac:(simpl; tauto)).
  discriminate.
Defined.

(** *** The schedule list *)

Lemma sum_counts_NoDup (ids vals : list string) :
  NoDup ids ->
  list_sum (map (fun id => length (List.filter (fun sid => String.eqb sid id) vals)) ids) =
  length (List.filter (fun sid => list_includes ids sid) vals).
Proof.
  induction 1 as [|i ids Hi Hnd IH]; simpl.
  - induction vals; simpl; auto.
  - rewrite IH. clear IH. induction vals as [|x vals IHv]; simpl; [done|].
    unfold list_includes at 2. simpl.
    destruct (String.eqb_spec x i) as [->|Hx]; simpl.
    + assert (Hn : list_includes ids i = false).
      { destruct (list_includes ids i) eqn:E; [|done]. apply list_includes_In in E.
        exfalso. apply Hi. by apply list_elem_of_In. }
      rewrite Hn. simpl. lia.
    + unfold list_includes in IHv |- *. destruct (existsb (String.eqb x) ids); simpl; lia.
Qed.

(** [loadSchedules]: the entity counts of the rows add up to the number of
    entities assigned to a schedule that exists; an entity whose schedule
    was deleted is counted in no row. *)
Theorem schedule_counts_sum {A} (allSchedules : gmap string A)
    (entitySchedules : gmap string string) :
  list_sum (schedule_counts allSchedules entitySchedules) =
  length (List.filter (fun sid => bool_decide (is_Some (allSchedules !! sid)))
                      (map snd (map_to_list entitySchedules))).
Proof.
  unfold schedule_counts, assigned.
  transitivity (list_sum (map (fun id => length (List.filter (fun sid => String.eqb sid id)
                 (map snd (map_to_list entitySchedules)))) ((map_to_list allSchedules).*1))).
  { f_equal. change ((map_to_list allSchedules).*1) with (map fst (map_to_list allSchedules)).
    by rewrite map_map. }
  rewrite sum_counts_NoDup by apply NoDup_fst_map_to_list.
  f_equal. apply filter_ext. intros sid.
  apply Bool.eq_true_iff_eq.
  rewrite bool_decide_eq_true, list_includes_In, <- list_elem_of_In, list_elem_of_fmap.
  split.
  - intros [[k x] [-> Hin]]. apply elem_of_map_to_list in Hin. simpl. by exists x.
  - intros [x Hx]. exists (sid, x). split; [done|]. by apply elem_of_map_to_list.
Qed.

(** *** Escaping *)

Lemma list_ascii_of_string_app (a b : string) :
  list_ascii_of_string (a ++ b) = (list_ascii_of_string a ++ list_ascii_of_string b)%list.
Proof. induction a as [|c a IH]; [reflexivity | exact (f_equal (cons c) IH)]. Qed.

(** [escapeHtml]: the output never contains [<] or [>], so it cannot open
    or close a tag. *)
Theorem escapeHtml_no_angle (s : string) :
  ~ In "<"%char (list_ascii_of_string (ApiKeys.escapeHtml s)) /\
  ~ In ">"%char (list_ascii_of_string (ApiKeys.escapeHtml s)).
Proof.
  induction s as [|c r [IH1 IH2]]; simpl; [tauto|].
  rewrite list_ascii_of_string_app, !in_app_iff.
  destruct (Ascii.eqb_spec c "&"); [subst; simpl; intuition discriminate|].
  destruct (Ascii.eqb_spec c "<"); [subst; simpl; intuition discriminate|].
  destruct (Ascii.eqb_spec c ">"); [subst; simpl; intuition discriminate|].
  simpl. intuition congruence.
Qed.

(** [escapeAttr]: the output never contains a double quote, so it cannot
    end the double-quoted [onclick] attribute it is placed in. *)
Theorem escapeAttr_no_double_quote (s : string) :
  ~ In (ascii_of_nat 34) (list_ascii_of_string (ApiKeys.escapeAttr s)).
Proof.
  induction s as [|c r IH]; simpl; [tauto|].
  rewrite list_ascii_of_string_app, in_app_iff.
  destruct (Ascii.eqb_spec c "'"); [subst; simpl; intuition discriminate|].
  destruct (Ascii.eqb_spec c (ascii_of_nat 34)); [subst; simpl; intuition discriminate|].
  simpl. intuition congruence.
Qed.

End DashboardFacts.
